(** * nyan containers: the type-erased iteration protocol of nyan_container.h

    A shallow embedding of [nyan::ContainerIterBase], [nyan::ContainerIterator]
    and [nyan::NyanContainer].  Cursor objects live in a heap indexed by
    addresses; a [std::unique_ptr] is a nullable address; every member
    function is a state-passing program over that heap whose outcome records
    undefined behaviour explicitly. *)

From stdpp Require Import base option list gmap.

(** ** Outcomes of a C++ member call *)

Inductive outcome (A : Type) : Type :=
| Done (a : A)    (* the call returns [a] *)
| Undefined       (* undefined behaviour: a null or dangling pointer is dereferenced *)
| IllFormed.      (* the member of the class template does not instantiate *)
Arguments Done {A} a.
Arguments Undefined {A}.
Arguments IllFormed {A}.

(** Programs over a state [S]. *)
Definition prog (S A : Type) : Type := S → outcome (A * S).

#[global] Instance prog_ret {S} : MRet (prog S) := λ A a σ, Done (a, σ).

#[global] Instance prog_bind {S} : MBind (prog S) := λ A B k m σ,
  match m σ with
  | Done (a, σ') => k a σ'
  | Undefined => Undefined
  | IllFormed => IllFormed
  end.

Definition undefined {S A} : prog S A := λ _, Undefined.
Definition ill_formed {S A} : prog S A := λ _, IllFormed.

(** [typeid(x)]: run-time type identity, compared with [==]. *)
Abbreviation type_info := positive (only parsing).

(** Addresses of heap-allocated cursor objects. *)
Abbreviation loc := positive (only parsing).

(** [const]-ness of the object expression a member is called on; it selects
    between the overloads of [begin] and [end]. *)
Inductive constness := Mutable | Const.

Module nyan.

(** ** [ContainerIterBase<iter_type>] *)

(** The pure virtual members, one implementation per cursor object of type
    [I]; [V] is [iter_type].  [op_incr] and [op_deref] answer [None] where the
    implementation leaves the call undefined. *)
Class ContainerIterBase (V I : Type) := {
  type_id : I → type_info;      (* typeid( *this ) *)
  op_incr : I → option I;       (* virtual this_type &operator ++() = 0 *)
  op_deref : I → option V;      (* virtual iter_type &operator *() const = 0 *)
  equals : I → I → bool;        (* virtual bool equals(const ContainerIterBase &) const = 0 *)
}.
Global Hint Mode ContainerIterBase - ! : typeclass_instances.

(** ** [ContainerIterator<T>]: the only data member is
    [std::unique_ptr<real_iterator> iter], a nullable address. *)
Record ContainerIterator := { iter : option loc }.

Section iterators.
Context {V I : Type} `{!ContainerIterBase V I}.

(** [ContainerIterBase::operator ==]:
    [(typeid( *this ) == typeid(other)) and this->equals(other)];
    [and] evaluates [equals] only when the kinds agree. *)
Definition base_eq (this other : I) : bool :=
  if decide (type_id this = type_id other) then equals this other else false.

(** ** The heap of cursors and [std::unique_ptr<real_iterator>] *)

(** [*p] for a [unique_ptr] [p]. *)
Definition load (p : option loc) : prog (gmap loc I) I :=
  λ σ, match p with
       | None => Undefined
       | Some l => match σ !! l with
                   | Some c => Done (c, σ)
                   | None => Undefined
                   end
       end.

Definition store (l : loc) (c : I) : prog (gmap loc I) unit :=
  λ σ, Done (tt, <[l := c]> σ).

(** [std::make_unique<K>(...)] for a concrete cursor class [K]: a fresh
    object on the heap. *)
Definition make_unique (c : I) : prog (gmap loc I) (option loc) :=
  λ σ, let l := fresh (dom σ) in Done (Some l, <[l := c]> σ).

(** ** [ContainerIterator<T>] *)

(** [ContainerIterator() = default]. *)
Definition default_ctor : ContainerIterator := {| iter := None |}.

(** [ContainerIterator(std::unique_ptr<real_iterator> &&real)]:
    [iter{std::move(real)}]; the result is the new handle and what is left
    in [real]. *)
Definition wrap_ctor (real : option loc) : ContainerIterator * option loc :=
  ({| iter := real |}, None).

(** [ContainerIterator(const ContainerIterator &other)]:
    [iter{std::make_unique(other)}].  [std::make_unique] is called without
    its template argument, which is never deduced from the call arguments,
    and on the handle [other] instead of on its cursor; [ContainerIterBase]
    has no member that clones a cursor.  The constructor does not
    instantiate. *)
Definition copy_ctor (other : ContainerIterator) : prog (gmap loc I) ContainerIterator :=
  ill_formed.

(** [ContainerIterator(ContainerIterator &&other)]:
    [iter{std::move(other.iter)}]; the result is the new handle and what is
    left of [other].  The heap is not touched. *)
Definition move_ctor (other : ContainerIterator) : ContainerIterator * ContainerIterator :=
  ({| iter := iter other |}, {| iter := None |}).

(** [operator =(const ContainerIterator &other)]:
    [this->iter = std::make_unique(other);], as in [copy_ctor], and no
    [return]. *)
Definition copy_assign (this other : ContainerIterator) : prog (gmap loc I) ContainerIterator :=
  ill_formed.

(** [operator =(ContainerIterator &&other)]: [this->iter = std::move(other);]
    assigns a handle to a [unique_ptr<real_iterator>], for which there is no
    conversion, and has no [return]. *)
Definition move_assign (this other : ContainerIterator) : prog (gmap loc I) ContainerIterator :=
  ill_formed.

(** [operator ++]: [++( *this->iter ); return *this;]. *)
Definition iter_incr (this : ContainerIterator) : prog (gmap loc I) ContainerIterator :=
  c ← load (iter this);
  match iter this, op_incr c with
  | Some l, Some c' => store l c';; mret this
  | _, _ => undefined
  end.

(** [operator *]: [return *( *this->iter );]. *)
Definition iter_deref (this : ContainerIterator) : prog (gmap loc I) V :=
  c ← load (iter this);
  match op_deref c with
  | Some v => mret v
  | None => undefined
  end.

(** [operator ==]:
    [(this->iter == other.iter) or ( *this->iter == *other.iter )].
    The left operand compares the two raw pointers; [or] evaluates the
    right operand, which dereferences both, only when they differ. *)
Definition iter_eq (this other : ContainerIterator) : prog (gmap loc I) bool :=
  if decide (iter this = iter other) then mret true
  else a ← load (iter this);
       b ← load (iter other);
       mret (base_eq a b).

(** [operator !=]: [return not ( *this == other );]. *)
Definition iter_ne (this other : ContainerIterator) : prog (gmap loc I) bool :=
  b ← iter_eq this other;
  mret (negb b).

End iterators.

(** ** [NyanContainer] *)

(** The pure virtual members, one implementation per container object of
    type [C].  [size] is a [const] member; [add], [contains] and [remove] are
    not, so they also answer the container they leave behind.  [begin_] and
    [end_] carry both overloads ([iterator begin()] and
    [const_iterator begin() const]), selected by the [const]-ness of the
    object expression. *)
Class NyanContainer (V I C : Type) := {
  size : C → nat;                (* virtual size_t size() const = 0 *)
  add : C → V → bool * C;        (* virtual bool add(NyanValueContainer &&value) = 0 *)
  contains : C → V → bool * C;   (* virtual bool contains(NyanValue *value) = 0 *)
  remove : C → V → bool * C;     (* virtual bool remove(NyanValue *value) = 0 *)
  begin_ : constness → C → prog (gmap loc I) ContainerIterator;
  end_ : constness → C → prog (gmap loc I) ContainerIterator;
}.
Global Hint Mode NyanContainer - - ! : typeclass_instances.

Section containers.
Context {V I C : Type} `{!ContainerIterBase V I, !NyanContainer V I C}.

(** [const_iterator cbegin() const { return this->begin(); }]: inside a
    [const] member [this] points to a [const] object, so the call resolves
    to [begin() const]. *)
Definition cbegin (this : C) : prog (gmap loc I) ContainerIterator :=
  begin_ Const this.

(** [const_iterator cend() const { return this->end(); }]. *)
Definition cend (this : C) : prog (gmap loc I) ContainerIterator :=
  end_ Const this.

(** ** Iterating from [begin()] to [end()]

    The loop a caller writes with the handles,
    [for (it = c.begin(), last = c.end(); it != last; ++it) visit( *it )],
    collecting at every step the cursor the handle stands on and the entity
    it dereferences to.  [None] is returned when [fuel] steps were not
    enough to reach [last]. *)
Fixpoint walk (fuel : nat) (it last : ContainerIterator)
    : prog (gmap loc I) (option (list (I * V))) :=
  match fuel with
  | 0 => mret None
  | S fuel' =>
      go ← iter_ne it last;
      if go : bool then
        here ← load (iter it);
        v ← iter_deref it;
        it' ← iter_incr it;
        rest ← walk fuel' it' last;
        mret (cons (here, v) <$> rest)
      else mret (Some [])
  end.

Definition traverse (cv : constness) (fuel : nat) (c : C)
    : prog (gmap loc I) (option (list (I * V))) :=
  it ← begin_ cv c;
  last ← end_ cv c;
  walk fuel it last.

End containers.

End nyan.

(** ** A concrete container variant

    [nyan_container.h] declares [size], [add], [contains], [remove], [begin]
    and [end] pure virtual; the classes that implement them, and their
    cursors, are in other files of the repository. *)
Module variant.
Import nyan.

Section impl.
Context {V : Type} `{!EqDecision V}.

(** Modelled from the spec: a concrete container object, the implementation
    of [NyanContainer] that [nyan_container.h] leaves to other files: its
    concrete kind, its identity, and the entities it aggregates, in
    insertion order. *)
Record container := { kind : type_info; self : loc; items : list V }.

(** Modelled from the spec: the cursor of that container, the subclass of
    [ContainerIterBase] missing from the source; bound to one container and
    one position (an index) within it. *)
Record cursor := {
  cur_kind : type_info;
  cur_owner : loc;
  cur_items : list V;
  cur_pos : nat;
}.

(** Modelled from the spec: a cursor of container [c] at index [i]
    (cursor construction, missing from the source). *)
Definition cursor_at (c : container) (i : nat) : cursor :=
  {| cur_kind := kind c; cur_owner := self c; cur_items := items c; cur_pos := i |}.

(** Modelled from the spec: [advance()] of the missing cursor class moves
    to the next position and is undefined at the end-position. *)
Definition advance (c : cursor) : option cursor :=
  if decide (cur_pos c < length (cur_items c))
  then Some {| cur_kind := cur_kind c; cur_owner := cur_owner c;
               cur_items := cur_items c; cur_pos := S (cur_pos c) |}
  else None.

(** Modelled from the spec: [dereference()] of the missing cursor class,
    the entity at the current position, undefined at the end-position. *)
Definition dereference (c : cursor) : option V := cur_items c !! cur_pos c.

(** Modelled from the spec: [same-position] of the missing cursor class,
    the same index in the same container. *)
Definition same_position (a b : cursor) : bool :=
  bool_decide (cur_owner a = cur_owner b ∧ cur_pos a = cur_pos b).

#[global] Instance cursor_iter : ContainerIterBase V cursor := {|
  type_id := cur_kind;
  op_incr := advance;
  op_deref := dereference;
  equals := same_position;
|}.

(** Modelled from the spec: a newly constructed container (the constructor
    [NyanContainer()] of the missing class) holds no entity. *)
Definition new (k : type_info) (l : loc) : container :=
  {| kind := k; self := l; items := [] |}.

(** Modelled from the spec: the same container object with other contents
    (the missing class updates its storage in place). *)
Definition with_items (c : container) (l : list V) : container :=
  {| kind := kind c; self := self c; items := l |}.

(** Modelled from the spec: [size()] of the missing class, the count of
    contained entities. *)
Definition v_size (c : container) : nat := length (items c).

(** Modelled from the spec: [contains] of the missing class, true iff an
    entity equal to the argument is present. *)
Definition v_contains (c : container) (e : V) : bool * container :=
  (bool_decide (e ∈ items c), c).

(** Modelled from the spec: [add] of the missing class: true if newly
    inserted, false and a no-op if an equal entity was already present. *)
Definition v_add (c : container) (e : V) : bool * container :=
  if (v_contains c e).1 then (false, c)
  else (true, with_items c (items c ++ [e])).

(** Modelled from the spec: "removes one entity equal to the argument", the
    first one met in the storage of the missing class. *)
Fixpoint remove_first (e : V) (l : list V) : list V :=
  match l with
  | [] => []
  | x :: l' => if decide (x = e) then l' else x :: remove_first e l'
  end.

(** Modelled from the spec: [remove] of the missing class removes one
    entity equal to the argument if present and returns whether a removal
    occurred. *)
Definition v_remove (c : container) (e : V) : bool * container :=
  if (v_contains c e).1 then (true, with_items c (remove_first e (items c)))
  else (false, c).

(** Modelled from the spec: [begin()] of the missing class, a handle on a
    new cursor at the first element. *)
Definition v_begin (cv : constness) (c : container)
    : prog (gmap loc cursor) ContainerIterator :=
  p ← make_unique (cursor_at c 0);
  mret (wrap_ctor p).1.

(** Modelled from the spec: [end()] of the missing class, a handle on a new
    cursor one past the last element. *)
Definition v_end (cv : constness) (c : container)
    : prog (gmap loc cursor) ContainerIterator :=
  p ← make_unique (cursor_at c (length (items c)));
  mret (wrap_ctor p).1.

#[global] Instance container_nyan : NyanContainer V cursor container := {|
  size := v_size;
  add := v_add;
  contains := v_contains;
  remove := v_remove;
  begin_ := v_begin;
  end_ := v_end;
|}.

(** The states a container goes through: constructed empty, then changed by
    [add] and [remove] only. *)
Inductive reachable : container → Prop :=
| reachable_new k l : reachable (new k l)
| reachable_add c e : reachable c → reachable (add c e).2
| reachable_remove c e : reachable c → reachable (remove c e).2.

End impl.

Arguments container : clear implicits.
Arguments cursor : clear implicits.

End variant.

(** ** Sample objects *)

Module sample.
Import nyan variant.

(** A container of kind 1 at address 10 holding 7 and 8, and one of kind 2
    at address 20 holding 7. *)
Definition c78 : container nat := (add (add (new 1%positive 10%positive) 7).2 8).2.
Definition c7 : container nat := (add (new 2%positive 20%positive) 7).2.

(** A heap with four cursors: on the first and past the last entity of
    [c78], on the first entity of [c7], and one more on the first entity of
    [c78]. *)
Definition σ4 : gmap loc (cursor nat) :=
  <[1%positive := cursor_at c78 0]> (<[2%positive := cursor_at c78 2]>
    (<[3%positive := cursor_at c7 0]> (<[4%positive := cursor_at c78 0]> ∅))).

Definition h1 : ContainerIterator := {| iter := Some 1%positive |}.
Definition h2 : ContainerIterator := {| iter := Some 2%positive |}.
Definition h3 : ContainerIterator := {| iter := Some 3%positive |}.
Definition h4 : ContainerIterator := {| iter := Some 4%positive |}.

(** A cursor class whose [equals] answers false for every pair of cursors,
    a cursor and itself included, and a heap with one such cursor. *)
Inductive aloof := Aloof.

Definition aloof_iter : ContainerIterBase nat aloof :=
  {| type_id := λ _, 3%positive;
     op_incr := λ _, None;
     op_deref := λ _, None;
     equals := λ _ _, false |}.

Definition σ_aloof : gmap loc aloof := <[5%positive := Aloof]> ∅.
Definition h5 : ContainerIterator := {| iter := Some 5%positive |}.

End sample.

(** * Properties *)

Import nyan.

Section handle_facts.
Context {V I : Type} `{!ContainerIterBase V I}.
Implicit Types (σ : gmap loc I) (this other : ContainerIterator) (a b : I).

Lemma load_some σ l a : σ !! l = Some a → load (Some l) σ = Done (a, σ).
Proof. intros E. unfold load. by rewrite E. Qed.

Lemma base_eq_true a b :
  base_eq a b = true ↔ type_id a = type_id b ∧ equals a b = true.
Proof. unfold base_eq. case_decide; intuition congruence. Qed.

(** What [operator ==] of two handles that own live cursors computes. *)
Lemma iter_eq_some σ this other l1 l2 a b :
  iter this = Some l1 → iter other = Some l2 →
  σ !! l1 = Some a → σ !! l2 = Some b →
  iter_eq this other σ = Done (bool_decide (l1 = l2) || base_eq a b, σ).
Proof.
  intros E1 E2 L1 L2. unfold iter_eq. rewrite E1, E2.
  case_decide as D.
  - simplify_eq. by rewrite bool_decide_eq_true_2.
  - rewrite bool_decide_eq_false_2 by congruence.
    unfold mbind, prog_bind. by rewrite (load_some _ _ _ L1), (load_some _ _ _ L2).
Qed.

Lemma bind_done {S A B} (m : prog S A) (k : A → prog S B) (s s' : S) x :
  m s = Done (x, s') → (m ≫= k) s = k x s'.
Proof. intros E. unfold mbind, prog_bind. by rewrite E. Qed.

Lemma iter_ne_some σ this other l1 l2 a b :
  iter this = Some l1 → iter other = Some l2 →
  σ !! l1 = Some a → σ !! l2 = Some b →
  iter_ne this other σ = Done (negb (bool_decide (l1 = l2) || base_eq a b), σ).
Proof.
  intros E1 E2 L1 L2. unfold iter_ne.
  by erewrite bind_done by (by eapply iter_eq_some).
Qed.

(** [operator ==] of two handles that hold no cursor. *)
Lemma iter_eq_none σ this other :
  iter this = None → iter other = None → iter_eq this other σ = Done (true, σ).
Proof.
  intros E1 E2. unfold iter_eq. rewrite E1, E2. by rewrite decide_True.
Qed.

(** [operator ==] when exactly one of the handles holds no cursor. *)
Lemma iter_eq_mixed σ this other :
  (iter this = None ∧ iter other ≠ None) ∨ (iter this ≠ None ∧ iter other = None) →
  iter_eq this other σ = Undefined.
Proof.
  intros Hm. unfold iter_eq. rewrite decide_False by (intros E; rewrite E in Hm; tauto).
  unfold mbind, prog_bind.
  destruct Hm as [[E1 N2]|[N1 E2]].
  - by rewrite E1.
  - rewrite E2. destruct (iter this) as [l|]; [|done]. simpl.
    by destruct (σ !! l).
Qed.

(** C1, amended: two handles that each own a cursor compare equal exactly
    when they hold the very same cursor object (the pointer test, which
    answers before [equals] is asked), or the cursors have the same concrete
    kind ([typeid]) and the same-position check [equals] answers true;
    handles on cursors of differing kinds are not equal. *)
Theorem iter_eq_same_cursor_or_same_position σ this other l1 l2 a b :
  iter this = Some l1 → iter other = Some l2 →
  σ !! l1 = Some a → σ !! l2 = Some b →
  ∃ r, iter_eq this other σ = Done (r, σ)
       ∧ (r = true ↔ l1 = l2 ∨ (type_id a = type_id b ∧ equals a b = true))
       ∧ (type_id a ≠ type_id b → r = false).
Proof.
  intros E1 E2 L1 L2.
  assert (bool_decide (l1 = l2) || base_eq a b = true
          ↔ l1 = l2 ∨ (type_id a = type_id b ∧ equals a b = true)) as Hiff.
  { by rewrite orb_true_iff, bool_decide_eq_true, base_eq_true. }
  eexists. split; [by eapply iter_eq_some|]. split; [done|].
  intros Hk. apply not_true_is_false. rewrite Hiff.
  intros [->|[Hk' _]]; [|done]. rewrite L1 in L2. by injection L2 as ->.
Qed.

(** C3, amended: the comparison is defined when both handles own
    a live cursor, also across kinds, where it is false, and when both hold
    no cursor, where it is true; a handle that holds no cursor compares equal
    to another one only if that one holds no cursor either; when exactly one
    of the two holds no cursor, the null pointer is dereferenced and the
    comparison is undefined. *)
Theorem iter_eq_defined σ this other :
  (∀ l, iter this = Some l ∨ iter other = Some l → is_Some (σ !! l)) →
  ((iter this = None ↔ iter other = None) →
     ∃ r, iter_eq this other σ = Done (r, σ)
          ∧ (iter this = None → r = true)
          ∧ (∀ l1 l2 a b, iter this = Some l1 → iter other = Some l2 →
               σ !! l1 = Some a → σ !! l2 = Some b →
               type_id a ≠ type_id b → r = false))
  ∧ (iter this = None →
       (iter_eq this other σ = Done (true, σ) ↔ iter other = None))
  ∧ ((iter this = None ∧ iter other ≠ None) ∨ (iter this ≠ None ∧ iter other = None) →
       iter_eq this other σ = Undefined).
Proof.
  intros Hlive. split; [|split].
  - intros Hboth. destruct (iter this) as [l1|] eqn:E1, (iter other) as [l2|] eqn:E2.
    + destruct (Hlive l1) as [a L1]; [by left|].
      destruct (Hlive l2) as [b L2]; [by right|].
      eexists. split; [by eapply iter_eq_some|]. split; [done|].
      intros ? ? a' b' [= <-] [= <-] L1' L2' Hk.
      rewrite L1 in L1'. rewrite L2 in L2'. simplify_eq.
      rewrite bool_decide_eq_false_2 by (intros ->; congruence). simpl.
      apply not_true_is_false. rewrite base_eq_true. tauto.
    + destruct Hboth as [_ H]. by specialize (H eq_refl).
    + destruct Hboth as [H _]. by specialize (H eq_refl).
    + exists true. split; [by apply iter_eq_none|]. split; [done|]. intros; discriminate.
  - intros E1. split.
    + intros Heq. destruct (iter other) as [l2|] eqn:E2; [|done].
      rewrite iter_eq_mixed in Heq; [done|]. left. by rewrite E2.
    + intros E2. by apply iter_eq_none.
  - apply iter_eq_mixed.
Qed.

(** C8: [operator !=] answers the negation of what [operator ==] answers,
    and is undefined exactly where [operator ==] is. *)
Theorem iter_ne_negates_iter_eq σ this other :
  iter_ne this other σ =
    match iter_eq this other σ with
    | Done (r, σ') => Done (negb r, σ')
    | Undefined => Undefined
    | IllFormed => IllFormed
    end.
Proof.
  unfold iter_ne, mbind, prog_bind.
  by destruct (iter_eq this other σ) as [[r σ']| |].
Qed.

(** C9: the move constructor hands the address of the very same cursor
    object to the new handle, leaves the heap of cursors as it is (no cursor
    is created or changed), and leaves the moved-from handle with no
    cursor. *)
Theorem move_ctor_transfers_cursor σ other l a :
  iter other = Some l → σ !! l = Some a →
  iter (move_ctor other).1 = Some l
  ∧ load (iter (move_ctor other).1) σ = Done (a, σ)
  ∧ iter (move_ctor other).2 = None.
Proof.
  intros E L. unfold move_ctor. simpl. rewrite E. split; [done|].
  split; [by apply load_some|done].
Qed.

End handle_facts.

(** C10: [cbegin()] is [begin() const] and [cend()] is [end() const]: on
    every container and every heap they return the same handle and leave the
    same heap. *)
Theorem cbegin_cend_are_const_overloads {V I C : Type}
    `{!ContainerIterBase V I, !NyanContainer V I C} (c : C) (σ : gmap loc I) :
  cbegin c σ = begin_ Const c σ ∧ cend c σ = end_ Const c σ.
Proof. split; reflexivity. Qed.

(** ** The concrete container variant *)

Import variant.

Section variant_facts.
Context {V : Type} `{!EqDecision V}.
Implicit Types (c : container V) (e : V) (σ : gmap loc (cursor V)).

Lemma remove_first_perm e (l : list V) : e ∈ l → l ≡ₚ e :: remove_first e l.
Proof.
  induction l as [|x l IH]; intros Hin.
  - by apply not_elem_of_nil in Hin.
  - simpl. case_decide as D.
    + by subst.
    + apply elem_of_cons in Hin as [->|Hin]; [done|].
      rewrite (IH Hin) at 1. apply Permutation_swap.
Qed.

(** A reachable container holds no entity twice. *)
Lemma reachable_NoDup c : reachable c → NoDup (items c).
Proof.
  induction 1 as [k l|c e _ IH|c e _ IH]; simpl.
  - apply NoDup_nil_2.
  - unfold v_add, v_contains. simpl. case_bool_decide as Hin; [done|].
    simpl. apply NoDup_app. split; [done|]. split; [|apply NoDup_singleton].
    intros x Hx ->%list_elem_of_singleton. done.
  - unfold v_remove, v_contains. simpl. case_bool_decide as Hin; [|done].
    simpl. apply remove_first_perm in Hin. rewrite Hin in IH.
    by apply NoDup_cons in IH as [_ ?].
Qed.

(** C4: when [add] answers true, [contains] then answers true for the
    entity and [size] has grown by exactly one; when it answers false,
    [size] is what it was. *)
Theorem add_contains_size (c : container V) (e : V) (added : bool) (c' : container V) :
  add c e = (added, c') →
  if added
  then (contains c' e).1 = true ∧ size c' = size c + 1
  else size c' = size c.
Proof.
  simpl. unfold v_add, v_contains, v_size. simpl.
  case_bool_decide as Hin; intros [= <- <-]; [done|]. simpl. split.
  - apply bool_decide_eq_true. apply elem_of_app. right. by apply list_elem_of_singleton.
  - rewrite length_app. simpl. lia.
Qed.

(** C7: [remove] of an entity that is not present answers false and leaves
    the container as it was; [remove] of one that is present answers true
    and takes exactly one entity equal to it out of the container. *)
Theorem remove_present_or_absent (c : container V) (e : V) (present : bool) :
  (contains c e).1 = present →
  if present
  then ∃ c' : container V, remove c e = (true, c')
             ∧ items c ≡ₚ e :: items c'
             ∧ size c = size c' + 1
             ∧ kind c' = kind c ∧ self c' = self c
  else remove c e = (false, c).
Proof.
  simpl. unfold v_remove, v_contains, v_size. simpl.
  case_bool_decide as Hin; intros <-; [|done].
  eexists. split; [done|]. simpl.
  pose proof (remove_first_perm _ _ Hin) as Hp. split; [done|].
  split; [|done]. rewrite Hp at 1. simpl. lia.
Qed.

Lemma base_eq_cursor_at c i j :
  base_eq (cursor_at c i) (cursor_at c j) = bool_decide (i = j).
Proof.
  unfold base_eq. simpl. rewrite decide_True by done.
  unfold same_position. simpl. apply bool_decide_ext. tauto.
Qed.

Lemma iter_deref_at c σ l i v :
  σ !! l = Some (cursor_at c i) → items c !! i = Some v →
  iter_deref {| iter := Some l |} σ = Done (v, σ).
Proof.
  intros L Hv. unfold iter_deref.
  erewrite bind_done by (by apply load_some). simpl.
  unfold dereference. simpl. by rewrite Hv.
Qed.

Lemma iter_incr_at c σ l i :
  σ !! l = Some (cursor_at c i) → i < length (items c) →
  iter_incr {| iter := Some l |} σ
  = Done ({| iter := Some l |}, <[l := cursor_at c (S i)]> σ).
Proof.
  intros L Hi. unfold iter_incr.
  erewrite bind_done by (by apply load_some). simpl.
  unfold advance. simpl. by rewrite decide_True by done.
Qed.

(** The loop, started anywhere between the first element and the end. *)
Lemma walk_from c fuel : ∀ σ lb le i,
  lb ≠ le →
  σ !! lb = Some (cursor_at c i) →
  σ !! le = Some (cursor_at c (length (items c))) →
  i ≤ length (items c) →
  length (items c) - i < fuel →
  ∃ vs σ', walk fuel {| iter := Some lb |} {| iter := Some le |} σ = Done (Some vs, σ')
           ∧ vs.*1 = cursor_at c <$> seq i (length (items c) - i)
           ∧ vs.*2 = drop i (items c).
Proof.
  induction fuel as [|fuel IH]; intros σ lb le i Hne Lb Le Hi Hfuel; [lia|].
  simpl.
  erewrite bind_done by (by eapply iter_ne_some).
  rewrite bool_decide_eq_false_2 by done. simpl. rewrite base_eq_cursor_at.
  case_bool_decide as Hend; simpl.
  - exists [], σ. subst i. by rewrite Nat.sub_diag, drop_all.
  - assert (i < length (items c)) as Hlt by lia.
    destruct (lookup_lt_is_Some_2 _ _ Hlt) as [v Hv].
    erewrite bind_done by (by apply load_some).
    erewrite bind_done by (by eapply iter_deref_at).
    erewrite bind_done by (by eapply iter_incr_at).
    destruct (IH (<[lb := cursor_at c (S i)]> σ) lb le (S i)) as (vs & σ' & Hw & H1 & H2).
    { done. }
    { by rewrite lookup_insert_eq. }
    { by rewrite lookup_insert_ne. }
    { lia. }
    { lia. }
    erewrite bind_done by exact Hw.
    exists ((cursor_at c i, v) :: vs), σ'. split; [done|].
    rewrite !fmap_cons, H1, H2. simpl.
    split.
    + replace (length (items c) - i) with (S (length (items c) - S i)) by lia. done.
    + symmetry. by apply drop_S.
Qed.

(** [begin()] and [end()] put two different cursor objects on the heap. *)
Lemma begin_end_heap c cv σ :
  ∃ lb le σ',
    begin_ cv c σ = Done ({| iter := Some lb |}, <[lb := cursor_at c 0]> σ)
    ∧ end_ cv c (<[lb := cursor_at c 0]> σ) = Done ({| iter := Some le |}, σ')
    ∧ lb ≠ le
    ∧ σ' !! lb = Some (cursor_at c 0)
    ∧ σ' !! le = Some (cursor_at c (length (items c))).
Proof.
  set (lb := fresh (dom σ)).
  set (σ1 := <[lb := cursor_at c 0]> σ).
  set (le := fresh (dom σ1)).
  assert (lb ≠ le) as Hne.
  { intros E. apply (is_fresh (dom σ1)). fold le. rewrite <- E.
    apply elem_of_dom. unfold σ1. rewrite lookup_insert_eq. by eexists. }
  exists lb, le, (<[le := cursor_at c (length (items c))]> σ1).
  split; [done|]. split; [done|]. split; [done|]. split.
  - rewrite lookup_insert_ne by done. unfold σ1. by rewrite lookup_insert_eq.
  - by rewrite lookup_insert_eq.
Qed.

(** C5: in every reachable state, iterating from [begin()] to [end()]
    terminates, stands on exactly [size()] positions, all different, and the
    entities dereferenced there are, each once, exactly the entities the
    container contains. *)
Theorem traverse_visits_contents (c : container V) cv (σ : gmap loc (cursor V)) fuel :
  reachable c → size c < fuel →
  ∃ visited σ',
    traverse cv fuel c σ = Done (Some visited, σ')
    ∧ length visited = size c
    ∧ NoDup (visited.*1)
    ∧ cur_pos <$> visited.*1 = seq 0 (size c)
    ∧ visited.*2 = items c
    ∧ NoDup (visited.*2)
    ∧ ∀ e, e ∈ visited.*2 ↔ (contains c e).1 = true.
Proof.
  intros Hreach Hfuel.
  destruct (begin_end_heap c cv σ) as (lb & le & σ2 & Hb & He & Hne & Lb & Le).
  destruct (walk_from c fuel σ2 lb le 0 Hne Lb Le) as (vs & σ' & Hw & H1 & H2).
  { lia. }
  { simpl in Hfuel. unfold v_size in Hfuel. lia. }
  rewrite Nat.sub_0_r in H1. rewrite drop_0 in H2.
  assert (cur_pos <$> vs.*1 = seq 0 (size c)) as Hpos.
  { rewrite H1, <- list_fmap_compose.
    change (size c) with (length (items c)).
    generalize (seq 0 (length (items c))). intros l.
    induction l as [|x l IHl]; [done|]. rewrite fmap_cons. by f_equal. }
  exists vs, σ'. split.
  { unfold traverse. erewrite bind_done by exact Hb. by erewrite bind_done by exact He. }
  split. { rewrite <- (length_fmap snd), H2. done. }
  split. { apply (NoDup_fmap_1 cur_pos). rewrite Hpos. apply NoDup_seq. }
  split; [done|]. split; [done|]. rewrite H2.
  split. { by apply reachable_NoDup. }
  intros e. simpl. unfold v_contains. simpl. by rewrite bool_decide_eq_true.
Qed.

(** C6: the handles of [begin()] and [end()] compare equal exactly when
    [size()] is 0. *)
Theorem begin_eq_end_iff_empty (c : container V) cv (σ : gmap loc (cursor V)) :
  ∃ r σ',
    (it ← begin_ cv c; last ← end_ cv c; iter_eq it last) σ = Done (r, σ')
    ∧ (r = true ↔ size c = 0).
Proof.
  destruct (begin_end_heap c cv σ) as (lb & le & σ2 & Hb & He & Hne & Lb & Le).
  exists (bool_decide (0 = length (items c))), σ2. split.
  - erewrite bind_done by exact Hb. erewrite bind_done by exact He.
    erewrite iter_eq_some by done.
    rewrite bool_decide_eq_false_2 by done. simpl. by rewrite base_eq_cursor_at.
  - rewrite bool_decide_eq_true. simpl. unfold v_size. lia.
Qed.

End variant_facts.

(** ** The theorems at the sample objects *)

Lemma iter_eq_same_cursor_or_same_position_witness :
  (∃ r, iter_eq sample.h1 sample.h4 sample.σ4 = Done (r, sample.σ4)
        ∧ (r = true ↔ 1%positive = 4%positive
                      ∨ (type_id (cursor_at sample.c78 0) = type_id (cursor_at sample.c78 0)
                         ∧ equals (cursor_at sample.c78 0) (cursor_at sample.c78 0) = true))
        ∧ (type_id (cursor_at sample.c78 0) ≠ type_id (cursor_at sample.c78 0) → r = false))
  ∧ (∃ r, iter_eq sample.h1 sample.h3 sample.σ4 = Done (r, sample.σ4)
          ∧ (r = true ↔ 1%positive = 3%positive
                        ∨ (type_id (cursor_at sample.c78 0) = type_id (cursor_at sample.c7 0)
                           ∧ equals (cursor_at sample.c78 0) (cursor_at sample.c7 0) = true))
          ∧ (type_id (cursor_at sample.c78 0) ≠ type_id (cursor_at sample.c7 0) → r = false)).
Proof.
  split.
  - apply (iter_eq_same_cursor_or_same_position sample.σ4 sample.h1 sample.h4
             1%positive 4%positive); reflexivity.
  - apply (iter_eq_same_cursor_or_same_position sample.σ4 sample.h1 sample.h3
             1%positive 3%positive); reflexivity.
Defined.

(** C1, counterexample: a handle on a cursor whose [equals] answers false
    for the cursor and itself still compares equal to itself: the kinds are
    identical and the same-position check answers false, yet [operator ==]
    answers true. *)
Lemma iter_eq_self_without_equals :
  iter sample.h5 = Some 5%positive
  ∧ sample.σ_aloof !! 5%positive = Some sample.Aloof
  ∧ @iter_eq nat sample.aloof sample.aloof_iter sample.h5 sample.h5 sample.σ_aloof
    = Done (true, sample.σ_aloof)
  ∧ @equals nat sample.aloof sample.aloof_iter sample.Aloof sample.Aloof = false
  ∧ ¬ (true = true
       ↔ @type_id nat sample.aloof sample.aloof_iter sample.Aloof
         = @type_id nat sample.aloof sample.aloof_iter sample.Aloof
         ∧ @equals nat sample.aloof sample.aloof_iter sample.Aloof sample.Aloof = true).
Proof.
  split; [reflexivity|]. split; [reflexivity|]. split; [reflexivity|].
  split; [reflexivity|]. intros [H _]. destruct (H eq_refl) as [_ E]. discriminate E.
Qed.

(** C2: at a handle that owns a cursor, the copy constructor and the copy
    assignment return no handle at all, so no independent clone of the
    cursor: their bodies do not instantiate. *)
Theorem copy_makes_no_clone :
  copy_ctor sample.h1 sample.σ4 = IllFormed
  ∧ copy_assign default_ctor sample.h1 sample.σ4 = IllFormed
  ∧ ¬ ∃ h σ', copy_ctor sample.h1 sample.σ4 = Done (h, σ').
Proof.
  split; [reflexivity|]. split; [reflexivity|]. intros (h & σ' & E). discriminate E.
Qed.

(** C3, counterexample: comparing the handle that holds no cursor with a
    handle that owns one, either way round, is undefined. *)
Lemma iter_eq_null_handle_undefined :
  iter sample.h1 ≠ None
  ∧ iter_eq default_ctor sample.h1 sample.σ4 = Undefined
  ∧ iter_eq sample.h1 default_ctor sample.σ4 = Undefined
  ∧ ¬ ∃ r σ', iter_eq default_ctor sample.h1 sample.σ4 = Done (r, σ').
Proof.
  split; [discriminate|]. split; [reflexivity|]. split; [reflexivity|].
  intros (r & σ' & E). discriminate E.
Qed.

Lemma iter_eq_defined_witness :
  ((iter sample.h1 = None ↔ iter sample.h3 = None) →
     ∃ r, iter_eq sample.h1 sample.h3 sample.σ4 = Done (r, sample.σ4)
          ∧ (iter sample.h1 = None → r = true)
          ∧ (∀ l1 l2 a b, iter sample.h1 = Some l1 → iter sample.h3 = Some l2 →
               sample.σ4 !! l1 = Some a → sample.σ4 !! l2 = Some b →
               type_id a ≠ type_id b → r = false))
  ∧ (iter sample.h1 = None →
       (iter_eq sample.h1 sample.h3 sample.σ4 = Done (true, sample.σ4)
        ↔ iter sample.h3 = None))
  ∧ ((iter sample.h1 = None ∧ iter sample.h3 ≠ None)
     ∨ (iter sample.h1 ≠ None ∧ iter sample.h3 = None) →
       iter_eq sample.h1 sample.h3 sample.σ4 = Undefined).
Proof.
  apply (iter_eq_defined sample.σ4 sample.h1 sample.h3).
  intros l [E|E]; injection E as <-; eexists; reflexivity.
Defined.

Lemma move_ctor_transfers_cursor_witness :
  iter (move_ctor sample.h2).1 = Some 2%positive
  ∧ load (iter (move_ctor sample.h2).1) sample.σ4
    = Done (cursor_at sample.c78 2, sample.σ4)
  ∧ iter (move_ctor sample.h2).2 = None.
Proof.
  apply (move_ctor_transfers_cursor sample.σ4 sample.h2 2%positive); reflexivity.
Defined.

Lemma add_contains_size_witness :
  ((contains sample.c78 8).1 = true ∧ size sample.c78 = size (add (new 1%positive 10%positive) 7).2 + 1)
  ∧ size sample.c78 = size sample.c78.
Proof.
  split.
  - apply (add_contains_size (add (new 1%positive 10%positive) 7).2 8 true sample.c78). reflexivity.
  - apply (add_contains_size sample.c78 7 false sample.c78). reflexivity.
Defined.

Lemma remove_present_or_absent_witness :
  (∃ c', remove sample.c78 7 = (true, c')
         ∧ items sample.c78 ≡ₚ 7 :: items c'
         ∧ size sample.c78 = size c' + 1
         ∧ kind c' = kind sample.c78 ∧ self c' = self sample.c78)
  ∧ remove sample.c78 9 = (false, sample.c78).
Proof.
  split.
  - apply (remove_present_or_absent sample.c78 7 true). reflexivity.
  - apply (remove_present_or_absent sample.c78 9 false). reflexivity.
Defined.

Lemma traverse_visits_contents_witness :
  ∃ visited σ',
    traverse Mutable 3 sample.c78 sample.σ4 = Done (Some visited, σ')
    ∧ length visited = size sample.c78
    ∧ NoDup (visited.*1)
    ∧ cur_pos <$> visited.*1 = seq 0 (size sample.c78)
    ∧ visited.*2 = items sample.c78
    ∧ NoDup (visited.*2)
    ∧ ∀ e, e ∈ visited.*2 ↔ (contains sample.c78 e).1 = true.
Proof.
  apply (traverse_visits_contents sample.c78 Mutable sample.σ4 3).
  - apply (reachable_add _ 8). apply (reachable_add _ 7). apply reachable_new.
  - vm_compute. lia.
Defined.

(** The scenario of the specification, with 7 for A and 8 for B: [add(A)] and
    [add(B)] answer true, a second [add(A)] answers false and leaves two
    entities; after [remove(A)] one entity is left, [contains(A)] is false,
    [contains(B)] is true, and iterating dereferences to B once and reaches
    the end. *)
Example scenario_add_remove_iterate :
  let c0 : container nat := new 1%positive 10%positive in
  let r1 := add c0 7 in
  let r2 := add r1.2 8 in
  let r3 := add r2.2 7 in
  let r4 := remove r3.2 7 in
  (r1.1, size r1.2) = (true, 1)
  ∧ (r2.1, size r2.2) = (true, 2)
  ∧ (r3.1, size r3.2) = (false, 2)
  ∧ (r4.1, size r4.2) = (true, 1)
  ∧ (contains r4.2 7).1 = false
  ∧ (contains r4.2 8).1 = true
  ∧ ∃ σ', traverse Mutable 2 r4.2 ∅ = Done (Some [(cursor_at r4.2 0, 8)], σ').
Proof.
  repeat (split; [reflexivity|]). eexists. vm_compute. reflexivity.
Qed.

(** ** More on the handle operators *)

Section handle_algebra.
Context {V I : Type} `{!ContainerIterBase V I}.
Implicit Types (σ : gmap loc I) (this other : ContainerIterator) (a b : I).

(** [operator ==] in closed form: the pointer test, then the two
    dereferences, then [ContainerIterBase::operator ==]. *)
Lemma iter_eq_cases σ this other :
  iter_eq this other σ =
    if decide (iter this = iter other) then Done (true, σ)
    else match iter this ≫= (σ !!.), iter other ≫= (σ !!.) with
         | Some a, Some b => Done (base_eq a b, σ)
         | _, _ => Undefined
         end.
Proof.
  unfold iter_eq. case_decide; [done|].
  unfold mbind at 1 2, prog_bind, load.
  destruct (iter this) as [l1|]; simpl; [|done].
  destruct (σ !! l1) as [a|]; simpl; [|done].
  destruct (iter other) as [l2|]; simpl; [|done].
  by destruct (σ !! l2).
Qed.

Lemma base_eq_sym a b :
  (type_id a = type_id b → equals a b = equals b a) → base_eq a b = base_eq b a.
Proof.
  intros Hs. unfold base_eq. repeat case_decide; try done; try congruence. auto.
Qed.

(** X1: [ContainerIterBase::operator ==] is an equivalence on cursors as soon as
    [equals] is one among cursors of the same concrete kind: the [typeid]
    guard keeps cursors of different kinds apart and never asks [equals]
    about them. *)
Theorem base_eq_equivalence :
  (∀ a, equals a a = true) →
  (∀ a b, type_id a = type_id b → equals a b = true → equals b a = true) →
  (∀ a b c, type_id a = type_id b → type_id b = type_id c →
            equals a b = true → equals b c = true → equals a c = true) →
  Equivalence (λ a b : I, base_eq a b = true).
Proof.
  intros Hr Hs Ht. split.
  - intros a. apply base_eq_true. auto.
  - intros a b [Hk He]%base_eq_true. apply base_eq_true. auto.
  - intros a b c [Hk1 He1]%base_eq_true [Hk2 He2]%base_eq_true.
    apply base_eq_true. split; [congruence|eauto].
Qed.

(** X2: A handle compared with itself is equal, and not unequal, whatever it
    holds: the pointer test answers before any cursor is dereferenced, so
    this is defined even for a handle with no cursor or with a cursor that
    is not on the heap. *)
Theorem iter_eq_self σ this :
  iter_eq this this σ = Done (true, σ) ∧ iter_ne this this σ = Done (false, σ).
Proof.
  assert (iter_eq this this σ = Done (true, σ)) as E.
  { rewrite iter_eq_cases. by rewrite decide_True. }
  split; [done|]. unfold iter_ne. by erewrite bind_done by exact E.
Qed.

(** X3: [operator ==] of handles does not depend on the order of its operands,
    undefined cases included, when [equals] does not among cursors of the
    same kind. *)
Theorem iter_eq_symmetric σ this other :
  (∀ a b, type_id a = type_id b → equals a b = equals b a) →
  iter_eq this other σ = iter_eq other this σ.
Proof.
  intros Hs. rewrite !iter_eq_cases.
  destruct (decide (iter this = iter other)) as [E|N].
  - by rewrite decide_True.
  - rewrite decide_False by congruence.
    destruct (iter this ≫= (σ !!.)) as [a|], (iter other ≫= (σ !!.)) as [b|]; try done.
    rewrite (base_eq_sym a b); [done|]. apply Hs.
Qed.

(** X4: Handles equal to a common handle are equal to each other, when [equals]
    is transitive among cursors of the same kind. *)
Theorem iter_eq_transitive σ h1 h2 h3 :
  (∀ a b c, type_id a = type_id b → type_id b = type_id c →
            equals a b = true → equals b c = true → equals a c = true) →
  iter_eq h1 h2 σ = Done (true, σ) →
  iter_eq h2 h3 σ = Done (true, σ) →
  iter_eq h1 h3 σ = Done (true, σ).
Proof.
  intros Ht. rewrite !iter_eq_cases.
  destruct (decide (iter h1 = iter h2)) as [E12|N12].
  { rewrite E12. auto. }
  destruct (decide (iter h2 = iter h3)) as [E23|N23].
  { rewrite <- E23. rewrite decide_False by done. auto. }
  destruct (iter h1 ≫= (σ !!.)) as [a|] eqn:Ea; [|done].
  destruct (iter h2 ≫= (σ !!.)) as [b|] eqn:Eb; [|done].
  destruct (iter h3 ≫= (σ !!.)) as [c|] eqn:Ec; [|done].
  intros [= [Hk1 He1]%base_eq_true] [= [Hk2 He2]%base_eq_true].
  case_decide; [done|]. do 2 f_equal. apply base_eq_true.
  split; [congruence|eauto].
Qed.

(** X5: The [const] members [operator ==], [operator !=] and [operator *] always
    instantiate and, when they return, leave the heap of cursors as it was.
    [operator ==] and [operator !=] are undefined exactly when the two
    pointers differ and one of them is null or not on the heap;
    [operator *] is undefined exactly when its pointer is null or not on the
    heap, or the cursor's own [operator *] is undefined where it stands. *)
Theorem const_members_keep_heap σ this other :
  match iter_eq this other σ with
  | Done (_, σ') => σ' = σ | Undefined => True | IllFormed => False
  end
  ∧ match iter_ne this other σ with
    | Done (_, σ') => σ' = σ | Undefined => True | IllFormed => False
    end
  ∧ match iter_deref this σ with
    | Done (_, σ') => σ' = σ | Undefined => True | IllFormed => False
    end
  ∧ (iter_eq this other σ = Undefined
     ↔ iter this ≠ iter other
       ∧ (iter this ≫= (σ !!.) = None ∨ iter other ≫= (σ !!.) = None))
  ∧ (iter_ne this other σ = Undefined ↔ iter_eq this other σ = Undefined)
  ∧ (iter_deref this σ = Undefined
     ↔ (iter this ≫= (σ !!.)) ≫= op_deref = None).
Proof.
  assert (match iter_eq this other σ with
          | Done (_, σ') => σ' = σ | Undefined => True | IllFormed => False
          end) as Heq.
  { rewrite iter_eq_cases. case_decide; [done|].
    by destruct (iter this ≫= (σ !!.)), (iter other ≫= (σ !!.)). }
  split; [done|]. split; [|split; [|split; [|split]]].
  - unfold iter_ne, mbind, prog_bind.
    by destruct (iter_eq this other σ) as [[r σ']| |].
  - unfold iter_deref, mbind, prog_bind, load.
    destruct (iter this) as [l|]; [|done].
    destruct (σ !! l) as [c|]; [|done].
    by destruct (op_deref c).
  - rewrite iter_eq_cases. case_decide as D.
    + split; [done|]. by intros [? _].
    + destruct (iter this ≫= (σ !!.)) as [a|], (iter other ≫= (σ !!.)) as [b|];
        split; try done; try (intros _; split; [done|]; auto).
      intros [_ [?|?]]; done.
  - unfold iter_ne, mbind, prog_bind.
    by destruct (iter_eq this other σ) as [[r σ']| |].
  - unfold iter_deref, mbind at 1, prog_bind, load.
    destruct (iter this) as [l|]; simpl; [|done].
    destruct (σ !! l) as [c|]; simpl; [|done].
    by destruct (op_deref c).
Qed.

End handle_algebra.

Section handle_state.
Context {V I : Type} `{!ContainerIterBase V I}.
Implicit Types (σ : gmap loc I) (this other : ContainerIterator) (a b : I).

(** [operator ++] in closed form. *)
Lemma iter_incr_cases σ this :
  iter_incr this σ =
    match iter this with
    | Some l =>
        match σ !! l ≫= op_incr with
        | Some c' => Done (this, <[l := c']> σ)
        | None => Undefined
        end
    | None => Undefined
    end.
Proof.
  unfold iter_incr, mbind at 1, prog_bind, load.
  destruct (iter this) as [l|]; [|done].
  destruct (σ !! l) as [c|]; simpl; [|done].
  by destruct (op_incr c).
Qed.

(** X6: [operator ++] returns the handle it was called on and changes nothing
    but the one cursor that handle owns: no cursor is created or destroyed
    and every other cursor on the heap stays as it was. *)
Theorem iter_incr_frame σ this h σ' :
  iter_incr this σ = Done (h, σ') →
  h = this
  ∧ dom σ' = dom σ
  ∧ ∀ l, iter this ≠ Some l → σ' !! l = σ !! l.
Proof.
  rewrite iter_incr_cases.
  destruct (iter this) as [l|] eqn:E; [|done].
  destruct (σ !! l) as [c|] eqn:L; simpl; [|done].
  destruct (op_incr c) as [c'|]; [|done].
  intros [= <- <-]. split; [done|]. split.
  - rewrite dom_insert_L. apply elem_of_dom_2 in L.
    apply set_eq. intros x. rewrite elem_of_union, elem_of_singleton.
    split; [intros [->|?]; done|auto].
  - intros l' N. rewrite lookup_insert_ne; [done|]. congruence.
Qed.

(** X7: Advancing one handle does not move another: after [++this], a handle on
    a different cursor dereferences to what it did before, and is undefined
    exactly where it was. *)
Theorem iter_incr_keeps_other σ this other h σ' :
  iter this ≠ iter other →
  iter_incr this σ = Done (h, σ') →
  iter_deref other σ' =
    match iter_deref other σ with
    | Done (v, _) => Done (v, σ')
    | Undefined => Undefined
    | IllFormed => IllFormed
    end.
Proof.
  intros N. rewrite iter_incr_cases.
  destruct (iter this) as [l|] eqn:E; [|done].
  destruct (σ !! l ≫= op_incr) as [c'|]; [|done].
  intros [= <- <-].
  unfold iter_deref, mbind, prog_bind, load.
  destruct (iter other) as [l'|]; [|done].
  rewrite lookup_insert_ne by congruence.
  destruct (σ !! l') as [c|]; [|done].
  by destruct (op_deref c).
Qed.

(** X8: The handle holds no position of its own: [*(++this)] is what the owned
    cursor dereferences to after its own [operator ++], and is undefined if
    that cursor cannot be dereferenced there. *)
Theorem iter_incr_then_deref σ this l c c' :
  iter this = Some l → σ !! l = Some c → op_incr c = Some c' →
  (h ← iter_incr this; iter_deref h) σ =
    match op_deref c' with
    | Some v => Done (v, <[l := c']> σ)
    | None => Undefined
    end.
Proof.
  intros E L Hc.
  erewrite bind_done; last first.
  { rewrite iter_incr_cases, E, L. simpl. by rewrite Hc. }
  unfold iter_deref.
  erewrite bind_done; last first.
  { rewrite E. apply load_some, lookup_insert_eq. }
  by destruct (op_deref c').
Qed.

(** X9: A default-constructed handle can be neither advanced nor dereferenced:
    both dereference the null cursor pointer. *)
Theorem default_handle_undefined σ :
  iter_incr default_ctor σ = Undefined
  ∧ iter_deref (V:=V) default_ctor σ = Undefined.
Proof. split; reflexivity. Qed.

(** X10: After a handle has been moved from, it is in the state of a
    default-constructed one: it compares equal to a default-constructed
    handle, cannot be dereferenced or advanced, and comparing it with the
    handle its cursor went to is undefined, either way round.  The new handle
    dereferences to what the old one did. *)
Theorem moved_from_handle σ other l :
  iter other = Some l →
  let new := (move_ctor other).1 in
  let old := (move_ctor other).2 in
  iter_eq old default_ctor σ = Done (true, σ)
  ∧ iter_deref (V:=V) old σ = Undefined
  ∧ iter_incr old σ = Undefined
  ∧ iter_eq old new σ = Undefined
  ∧ iter_eq new old σ = Undefined
  ∧ iter_deref (V:=V) new σ = iter_deref other σ.
Proof.
  intros E. simpl.
  split; [by apply iter_eq_none|]. split; [done|]. split; [done|].
  split; [apply iter_eq_mixed; left; simpl; by rewrite E|].
  split; [apply iter_eq_mixed; right; simpl; by rewrite E|].
  by destruct other.
Qed.

End handle_state.

Section fresh_handles.
Context {V I : Type} `{!ContainerIterBase V I}.

(** X11: A handle wrapped around a newly made cursor takes the pointer and leaves
    the [unique_ptr] it was built from null; the new cursor is no cursor
    already on the heap, so comparing the new handle with a handle on a live
    cursor is decided by [ContainerIterBase::operator ==] of the two cursors
    alone. *)
Theorem wrap_ctor_fresh_cursor (σ : gmap loc I) (c b : I) (other : ContainerIterator) l :
  iter other = Some l → σ !! l = Some b →
  (p ← make_unique c; iter_eq (wrap_ctor p).1 other) σ
    = Done (base_eq c b, <[fresh (dom σ) := c]> σ)
  ∧ ∀ p, (wrap_ctor p).2 = None ∧ iter (wrap_ctor p).1 = p.
Proof.
  intros E L. split; [|done].
  assert (fresh (dom σ) ≠ l) as N.
  { intros <-. apply (is_fresh (dom σ)). by eapply elem_of_dom_2. }
  unfold make_unique. unfold mbind at 1, prog_bind. simpl.
  erewrite iter_eq_some; [| done | exact E | apply lookup_insert_eq
                          | by rewrite lookup_insert_ne].
  by rewrite bool_decide_eq_false_2.
Qed.

End fresh_handles.

(** ** The added theorems at the sample objects *)

Section sample_cursors.
Context {V : Type} `{!EqDecision V}.
Implicit Types a b c : cursor V.

Lemma same_position_refl a : same_position a a = true.
Proof. by apply bool_decide_eq_true. Qed.

Lemma same_position_sym a b : same_position a b = same_position b a.
Proof. apply bool_decide_ext. intuition congruence. Qed.

Lemma same_position_trans a b c :
  same_position a b = true → same_position b c = true → same_position a c = true.
Proof. unfold same_position. rewrite !bool_decide_eq_true. intuition congruence. Qed.

End sample_cursors.

Lemma base_eq_equivalence_witness :
  Equivalence (λ a b : cursor nat, base_eq a b = true).
Proof.
  apply (base_eq_equivalence (I:=cursor nat)).
  - intros a. apply same_position_refl.
  - intros a b _ H. simpl. by rewrite same_position_sym.
  - intros a b c _ _. apply same_position_trans.
Defined.

Lemma iter_eq_symmetric_witness :
  iter_eq sample.h1 sample.h3 sample.σ4 = iter_eq sample.h3 sample.h1 sample.σ4.
Proof.
  apply (iter_eq_symmetric sample.σ4 sample.h1 sample.h3).
  intros a b _. apply same_position_sym.
Defined.

Lemma iter_eq_transitive_witness :
  iter_eq sample.h1 sample.h1 sample.σ4 = Done (true, sample.σ4).
Proof.
  apply (iter_eq_transitive sample.σ4 sample.h1 sample.h4 sample.h1).
  - intros a b c _ _. apply same_position_trans.
  - reflexivity.
  - reflexivity.
Defined.

Lemma iter_incr_frame_witness :
  sample.h1 = sample.h1
  ∧ dom (<[1%positive := cursor_at sample.c78 1]> sample.σ4) = dom sample.σ4
  ∧ ∀ l, iter sample.h1 ≠ Some l →
         <[1%positive := cursor_at sample.c78 1]> sample.σ4 !! l = sample.σ4 !! l.
Proof.
  apply (iter_incr_frame sample.σ4 sample.h1 sample.h1
           (<[1%positive := cursor_at sample.c78 1]> sample.σ4)).
  reflexivity.
Defined.

Lemma iter_incr_keeps_other_witness :
  iter_deref sample.h4 (<[1%positive := cursor_at sample.c78 1]> sample.σ4) =
    match iter_deref sample.h4 sample.σ4 with
    | Done (v, _) => Done (v, <[1%positive := cursor_at sample.c78 1]> sample.σ4)
    | Undefined => Undefined
    | IllFormed => IllFormed
    end.
Proof.
  apply (iter_incr_keeps_other sample.σ4 sample.h1 sample.h4 sample.h1).
  - discriminate.
  - reflexivity.
Defined.

Lemma iter_incr_then_deref_witness :
  (h ← iter_incr sample.h1; iter_deref h) sample.σ4 =
    match op_deref (cursor_at sample.c78 1) with
    | Some v => Done (v, <[1%positive := cursor_at sample.c78 1]> sample.σ4)
    | None => Undefined
    end.
Proof.
  apply (iter_incr_then_deref sample.σ4 sample.h1 1%positive (cursor_at sample.c78 0));
    reflexivity.
Defined.

Lemma moved_from_handle_witness :
  let new := (move_ctor sample.h1).1 in
  let old := (move_ctor sample.h1).2 in
  iter_eq old default_ctor sample.σ4 = Done (true, sample.σ4)
  ∧ iter_deref old sample.σ4 = Undefined
  ∧ iter_incr old sample.σ4 = Undefined
  ∧ iter_eq old new sample.σ4 = Undefined
  ∧ iter_eq new old sample.σ4 = Undefined
  ∧ iter_deref new sample.σ4 = iter_deref sample.h1 sample.σ4.
Proof.
  apply (moved_from_handle sample.σ4 sample.h1 1%positive). reflexivity.
Defined.

Lemma wrap_ctor_fresh_cursor_witness :
  (p ← make_unique (cursor_at sample.c78 2); iter_eq (wrap_ctor p).1 sample.h2) sample.σ4
    = Done (base_eq (cursor_at sample.c78 2) (cursor_at sample.c78 2),
            <[fresh (dom sample.σ4) := cursor_at sample.c78 2]> sample.σ4)
  ∧ ∀ p, (wrap_ctor p).2 = None ∧ iter (wrap_ctor p).1 = p.
Proof.
  apply (wrap_ctor_fresh_cursor sample.σ4 (cursor_at sample.c78 2) (cursor_at sample.c78 2)
           sample.h2 2%positive); reflexivity.
Defined.
